(** * fabtools.git: construction and dispatch of remote Git commands

    A shallow embedding of [fabtools/git.py].  The three operations
    [clone], [pull] and [checkout] build a shell command by [%s]
    interpolation and hand it to one of fabric's execution primitives,
    [pull] and [checkout] doing so inside a [with cd(path):] block.

    The module is effectful: it calls collaborators that talk to a remote
    host, it raises [ValueError], and the collaborators may raise.  The
    embedding passes a [world] (fabric's [env.cwd] and the log of
    everything the collaborators were asked to do) through every action,
    and an action ends by returning or by raising. *)

From Stdlib Require Import String List Bool Arith.
Import ListNotations.
Open Scope string_scope.

(** ** Python values at the interface *)

(** A parameter documented as [str] that may also hold [None]
    ([remote_url], [path], [branch], [user]). *)
Inductive pystr : Type :=
| PyNone
| PyStr (s : string).

(** [v is None] *)
Definition is_None (v : pystr) : bool :=
  match v with
  | PyNone => true
  | PyStr _ => false
  end.

(** The text that ['%s' % v] puts in place of [%s], that is [str(v)]:
    a string stands for itself, untouched, and [None] prints as [None]. *)
Definition percent_s (v : pystr) : string :=
  match v with
  | PyNone => "None"
  | PyStr s => s
  end.

(** ** The world seen by the collaborators *)

(** The three execution primitives, with the keyword argument [sudo]
    receives. *)
Inductive primitive : Type :=
| Run
| RunAsRoot
| Sudo (user : pystr).

(** What the collaborators observe: a primitive called with a command
    while [env.cwd] was [dir], and the entry and exit of a [cd] scope. *)
Inductive event : Type :=
| Call (p : primitive) (cmd : string) (dir : string)
| CdEnter (path : string)
| CdExit.

Record world : Type := mkWorld {
  cwd : string;        (* fabric's env.cwd *)
  log : list event     (* oldest first *)
}.

Definition record (e : event) (w : world) : world :=
  {| cwd := cwd w; log := log w ++ [e] |}.

Definition chdir (d : string) (w : world) : world :=
  {| cwd := d; log := log w |}.

(** ** Exceptions and actions *)

Inductive exn : Type :=
| ValueError (msg : string)
| RemoteFailure.

Inductive outcome (A : Type) : Type :=
| Ok (a : A)
| Raise (e : exn).
Arguments Ok {A} a.
Arguments Raise {A} e.

Definition M (A : Type) : Type := world -> outcome A * world.

Definition raise {A} (e : exn) : M A := fun w => (Raise e, w).

(** ** The [with] statement

    A context manager saves something on entry and gets it back on exit.
    [with cm: body] enters, runs the body, and leaves whether the body
    returned or raised; the exception, if any, goes on to the caller. *)
Record context_manager : Type := mkCM {
  cm_saved : Type;
  cm_enter : world -> cm_saved * world;
  cm_exit : cm_saved -> world -> world
}.

Definition with_ {A} (cm : context_manager) (body : M A) : M A :=
  fun w =>
    let (s, w1) := cm_enter cm w in
    let (r, w2) := body w1 in
    (r, cm_exit cm s w2).

(** Modelled from the spec: [fabric.context_managers.cd] is a collaborator
    whose code is not part of this module.  "Given a path, all commands
    issued within the scope run with that path as current directory;
    restored on scope exit." *)
Definition cd (path : string) : context_manager :=
  {| cm_saved := string;
     cm_enter := fun w => (cwd w, chdir path (record (CdEnter path) w));
     cm_exit := fun old w => chdir old (record CdExit w) |}.

(** ** The execution primitives *)

Section Collaborators.

(** Whether the remote side makes the primitive raise: it may depend on
    everything that happened so far, on the current directory, on the
    primitive and on the command. *)
Variable fails : world -> primitive -> string -> bool.

(** Modelled from the spec: the execution primitives are collaborators
    whose code is not in this module ([run] and [sudo] are fabric's,
    [run_as_root] is [fabtools.utils]'s).  Each one "executes the command"
    on the remote host: the call is recorded with the directory in effect,
    [env.cwd] is left alone, and the call returns or raises as the remote
    side decides. *)
Definition invoke (p : primitive) (cmd : string) : M unit :=
  fun w =>
    (if fails w p cmd then Raise RemoteFailure else Ok tt,
     record (Call p cmd (cwd w)) w).

(** [fabric.api.run(cmd)] *)
Definition run (cmd : string) : M unit := invoke Run cmd.

(** [fabtools.utils.run_as_root(cmd)] *)
Definition run_as_root (cmd : string) : M unit := invoke RunAsRoot cmd.

(** [fabric.api.sudo(cmd, user=user)] *)
Definition sudo (cmd : string) (user : pystr) : M unit :=
  invoke (Sudo user) cmd.

(** ** fabtools.git *)

(** [def clone(remote_url, path=None, use_sudo=False, user=None)] *)
Definition clone (remote_url path : pystr) (use_sudo : bool) (user : pystr)
  : M unit :=
  let cmd := "git clone --quiet " ++ percent_s remote_url in
  let cmd := if negb (is_None path) then cmd ++ (" " ++ percent_s path)
             else cmd in
  if use_sudo && is_None user then run_as_root cmd
  else if use_sudo then sudo cmd user
  else run cmd.

Definition pull_msg : string :=
  "Path to the working copy is needed to pull from a " ++
  "remote repository.".

(** [def pull(path, use_sudo=False, user=None, stash=False)] *)
Definition pull (path : pystr) (use_sudo : bool) (user : pystr)
  (stash : bool) : M unit :=
  match path with
  | PyNone => raise (ValueError pull_msg)
  | PyStr dir =>
      let cmd := "git pull" in
      let cmd := if stash then "(git stash; " ++ cmd ++ ")" else cmd in
      with_ (cd dir)
        (if use_sudo && is_None user then run_as_root cmd
         else if use_sudo then sudo cmd user
         else run cmd)
  end.

Definition checkout_msg : string :=
  "Path to the working copy is needed to checkout a " ++
  "branch".

(** The default of [branch] in [checkout]'s signature. *)
Definition branch_default : pystr := PyStr "master".

(** [def checkout(path, branch="master", use_sudo=False, user=None)] *)
Definition checkout (path branch : pystr) (use_sudo : bool) (user : pystr)
  : M unit :=
  match path with
  | PyNone => raise (ValueError checkout_msg)
  | PyStr dir =>
      let cmd := "git checkout " ++ percent_s branch in
      with_ (cd dir)
        (if use_sudo && is_None user then run_as_root cmd
         else if use_sudo then sudo cmd user
         else run cmd)
  end.

(** A call that leaves [branch] out binds the parameter to its default. *)
Definition checkout_omitting_branch (path : pystr) (use_sudo : bool)
  (user : pystr) : M unit :=
  checkout path branch_default use_sudo user.

End Collaborators.

(** ** Observations on a run *)

(** The events an action adds to the log when started in [w]. *)
Definition issued {A} (m : M A) (w : world) : list event :=
  skipn (length (log w)) (log (snd (m w))).

(** The primitive calls among some events, with their commands. *)
Fixpoint calls (es : list event) : list (primitive * string) :=
  match es with
  | [] => []
  | Call p cmd _ :: es' => (p, cmd) :: calls es'
  | _ :: es' => calls es'
  end.

(** The [cd] scopes entered among some events. *)
Fixpoint scopes (es : list event) : list string :=
  match es with
  | [] => []
  | CdEnter path :: es' => path :: scopes es'
  | _ :: es' => scopes es'
  end.

Definition raises_ValueError {A} (r : outcome A) : bool :=
  match r with
  | Raise (ValueError _) => true
  | _ => false
  end.

(** All three operations as one type of invocations of the module. *)
Inductive invocation : Type :=
| Clone (remote_url path : pystr) (use_sudo : bool) (user : pystr)
| Pull (path : pystr) (use_sudo : bool) (user : pystr) (stash : bool)
| Checkout (path branch : pystr) (use_sudo : bool) (user : pystr).

Definition perform (fails : world -> primitive -> string -> bool)
  (i : invocation) : M unit :=
  match i with
  | Clone remote_url path use_sudo user =>
      clone fails remote_url path use_sudo user
  | Pull path use_sudo user stash => pull fails path use_sudo user stash
  | Checkout path branch use_sudo user =>
      checkout fails path branch use_sudo user
  end.

(** A fresh session: fabric starts with an empty [env.cwd]. *)
Definition fresh : world := {| cwd := ""; log := [] |}.

(** A remote side on which every command succeeds, and one on which
    every command fails. *)
Definition remote_ok : world -> primitive -> string -> bool :=
  fun _ _ _ => false.

Definition remote_down : world -> primitive -> string -> bool :=
  fun _ _ _ => true.

(** ** Straight-line callers

    A caller, such as a fabric task, makes invocations one after the
    other; a statement that raises ends the caller, and the statements
    after it do not run. *)

(** The end of a caller with nothing left to do. *)
Definition done : M unit := fun w => (Ok tt, w).

(** One statement, then the rest. *)
Definition and_then {A B} (first : M A) (rest : A -> M B) : M B :=
  fun w =>
    match first w with
    | (Ok a, w1) => rest a w1
    | (Raise e, w1) => (Raise e, w1)
    end.

Fixpoint perform_all (fails : world -> primitive -> string -> bool)
  (script : list invocation) : M unit :=
  match script with
  | [] => done
  | i :: rest =>
      and_then (perform fails i) (fun _ => perform_all fails rest)
  end.

(** The [use_sudo] argument of an invocation. *)
Definition use_sudo_of (i : invocation) : bool :=
  match i with
  | Clone _ _ use_sudo _ => use_sudo
  | Pull _ use_sudo _ _ => use_sudo
  | Checkout _ _ use_sudo _ => use_sudo
  end.

(** The number of [cd] scopes open after some events, [d] being open
    before them; [None] when a scope is left that was never entered. *)
Fixpoint scope_depth (d : nat) (es : list event) : option nat :=
  match es with
  | [] => Some d
  | CdEnter _ :: es' => scope_depth (S d) es'
  | CdExit :: es' =>
      match d with
      | 0 => None
      | S d' => scope_depth d' es'
      end
  | Call _ _ _ :: es' => scope_depth d es'
  end.

(** Whether a primitive runs the command with another identity than the
    session's. *)
Definition privileged (p : primitive) : bool :=
  match p with
  | Run => false
  | RunAsRoot => true
  | Sudo _ => true
  end.

(** ** Examples *)

Example clone_plain :
  clone remote_ok (PyStr "git://h/r.git") PyNone false PyNone fresh
  = (Ok tt,
     {| cwd := ""; log := [Call Run "git clone --quiet git://h/r.git" ""] |}).
Proof. reflexivity. Qed.

Example clone_as_alice :
  issued (clone remote_ok (PyStr "git://h/r.git") (PyStr "/srv/app") true
            (PyStr "alice")) fresh
  = [Call (Sudo (PyStr "alice"))
       "git clone --quiet git://h/r.git /srv/app" ""].
Proof. reflexivity. Qed.

Example pull_stash_root_failing :
  pull remote_down (PyStr "/srv/app") true PyNone true fresh
  = (Raise RemoteFailure,
     {| cwd := "";
        log := [CdEnter "/srv/app";
                Call RunAsRoot "(git stash; git pull)" "/srv/app";
                CdExit] |}).
Proof. reflexivity. Qed.

Example checkout_develop :
  issued (checkout remote_ok (PyStr "/srv/app") (PyStr "develop") false
            PyNone) fresh
  = [CdEnter "/srv/app"; Call Run "git checkout develop" "/srv/app"; CdExit].
Proof. reflexivity. Qed.

Example pull_without_path :
  pull remote_ok PyNone true (PyStr "alice") true fresh
  = (Raise (ValueError
       "Path to the working copy is needed to pull from a remote repository."),
     fresh).
Proof. reflexivity. Qed.

(** ** Auxiliary facts *)

Lemma append_assoc (a b c : string) : (a ++ b) ++ c = a ++ (b ++ c).
Proof.
  induction a as [| ch a IH]; simpl.
  - reflexivity.
  - now rewrite IH.
Qed.

Lemma append_empty_r (a : string) : a ++ "" = a.
Proof.
  induction a as [| ch a IH]; simpl.
  - reflexivity.
  - now rewrite IH.
Qed.

Lemma issued_grows {A} (m : M A) (w : world) (es : list event) :
  log (snd (m w)) = (log w ++ es)%list -> issued m w = es.
Proof.
  unfold issued. intros ->.
  rewrite skipn_app, skipn_all, Nat.sub_diag. reflexivity.
Qed.

Lemma issued_nothing {A} (m : M A) (w : world) :
  snd (m w) = w -> issued m w = [].
Proof.
  intros H. apply issued_grows. rewrite H. now rewrite app_nil_r.
Qed.

Section Runs.

Variable fails : world -> primitive -> string -> bool.

Lemma issued_invoke (p : primitive) (cmd : string) (w : world) :
  issued (invoke fails p cmd) w = [Call p cmd (cwd w)].
Proof. apply issued_grows. reflexivity. Qed.

Lemma cwd_invoke (p : primitive) (cmd : string) (w : world) :
  cwd (snd (invoke fails p cmd w)) = cwd w.
Proof. reflexivity. Qed.

Lemma invoke_outcome (p : primitive) (cmd : string) (w : world) :
  fst (invoke fails p cmd w) = Ok tt \/
  fst (invoke fails p cmd w) = Raise RemoteFailure.
Proof. unfold invoke; simpl. destruct (fails w p cmd); auto. Qed.

Lemma issued_scoped (dir : string) (p : primitive) (cmd : string)
  (w : world) :
  issued (with_ (cd dir) (invoke fails p cmd)) w
  = [CdEnter dir; Call p cmd dir; CdExit].
Proof.
  apply issued_grows. unfold with_, cd, invoke, chdir, record; simpl.
  now rewrite <- !app_assoc.
Qed.

Lemma cwd_scoped {A} (dir : string) (body : M A) (w : world) :
  cwd (snd (with_ (cd dir) body w)) = cwd w.
Proof.
  unfold with_; simpl. destruct (body _) as [r w2]. reflexivity.
Qed.

Lemma scoped_outcome (dir : string) (p : primitive) (cmd : string)
  (w : world) :
  fst (with_ (cd dir) (invoke fails p cmd) w)
  = fst (invoke fails p cmd (chdir dir (record (CdEnter dir) w))).
Proof. reflexivity. Qed.

(** The three-way branch always ends in one primitive, whatever the
    flags: each operation is a single [invoke], scoped or not. *)
Lemma clone_is_invoke (remote_url path : pystr) (use_sudo : bool)
  (user : pystr) :
  exists p cmd, clone fails remote_url path use_sudo user = invoke fails p cmd.
Proof.
  unfold clone. destruct use_sudo, user; simpl; do 2 eexists; reflexivity.
Qed.

Lemma pull_is_scoped_invoke (dir : string) (use_sudo : bool) (user : pystr)
  (stash : bool) :
  exists p cmd,
    pull fails (PyStr dir) use_sudo user stash
    = with_ (cd dir) (invoke fails p cmd).
Proof.
  unfold pull. destruct use_sudo, user; simpl; do 2 eexists; reflexivity.
Qed.

Lemma checkout_is_scoped_invoke (dir : string) (branch : pystr)
  (use_sudo : bool) (user : pystr) :
  exists p cmd,
    checkout fails (PyStr dir) branch use_sudo user
    = with_ (cd dir) (invoke fails p cmd).
Proof.
  unfold checkout. destruct use_sudo, user; simpl; do 2 eexists; reflexivity.
Qed.

End Runs.

(** ** The claims *)

Section Claims.

Variable fails : world -> primitive -> string -> bool.

(** C1.  In all three operations the primitive is chosen by the same
    three-way rule, whatever the other arguments and the world: with
    [use_sudo] true and [user] None the one call made is to [run_as_root];
    with [use_sudo] true and [user] set it is to [sudo] with that user;
    with [use_sudo] false it is to [run].  ([pull] and [checkout] are taken
    at a path that is set, since without one they execute nothing.) *)
Theorem dispatch_three_way (w : world) (remote_url path branch : pystr)
  (dir who : string) (stash : bool) :
  ( map fst (calls (issued (clone fails remote_url path true PyNone) w))
      = [RunAsRoot]
    /\ map fst (calls (issued
                  (clone fails remote_url path true (PyStr who)) w))
      = [Sudo (PyStr who)]
    /\ forall user,
        map fst (calls (issued (clone fails remote_url path false user) w))
        = [Run] )
  /\
  ( map fst (calls (issued (pull fails (PyStr dir) true PyNone stash) w))
      = [RunAsRoot]
    /\ map fst (calls (issued
                  (pull fails (PyStr dir) true (PyStr who) stash) w))
      = [Sudo (PyStr who)]
    /\ forall user,
        map fst (calls (issued (pull fails (PyStr dir) false user stash) w))
        = [Run] )
  /\
  ( map fst (calls (issued
               (checkout fails (PyStr dir) branch true PyNone) w))
      = [RunAsRoot]
    /\ map fst (calls (issued
                  (checkout fails (PyStr dir) branch true (PyStr who)) w))
      = [Sudo (PyStr who)]
    /\ forall user,
        map fst (calls (issued
                   (checkout fails (PyStr dir) branch false user) w))
        = [Run] ).
Proof.
  unfold clone, pull, checkout, run_as_root, sudo, run; simpl.
  repeat split; intros;
    rewrite ?issued_invoke, ?issued_scoped; reflexivity.
Qed.

(** C2.  For every pair of strings (remote_url, path), [clone] issues
    exactly ["git clone --quiet " ++ remote_url] when path is None and
    exactly ["git clone --quiet " ++ remote_url ++ " " ++ path] when path is
    given; both values appear in the command as they were passed, with no
    escaping. *)
Theorem clone_command (w : world) (remote_url path : string)
  (use_sudo : bool) (user : pystr) :
  map snd (calls (issued
             (clone fails (PyStr remote_url) PyNone use_sudo user) w))
    = ["git clone --quiet " ++ remote_url]
  /\
  map snd (calls (issued
             (clone fails (PyStr remote_url) (PyStr path) use_sudo user) w))
    = ["git clone --quiet " ++ remote_url ++ " " ++ path].
Proof.
  unfold clone, run_as_root, sudo, run; simpl.
  split; destruct (use_sudo && is_None user), use_sudo;
    rewrite issued_invoke; simpl; rewrite ?append_assoc; reflexivity.
Qed.

(** C3.  [pull] and [checkout] called with path None raise the
    invalid-argument error and leave the world as it was: no primitive has
    been called and no [cd] scope entered.  The two messages differ. *)
Theorem missing_path_rejected (w : world) (branch : pystr) (use_sudo : bool)
  (user : pystr) (stash : bool) :
  pull fails PyNone use_sudo user stash w = (Raise (ValueError pull_msg), w)
  /\ issued (pull fails PyNone use_sudo user stash) w = []
  /\ checkout fails PyNone branch use_sudo user w
     = (Raise (ValueError checkout_msg), w)
  /\ issued (checkout fails PyNone branch use_sudo user) w = []
  /\ pull_msg <> checkout_msg.
Proof.
  repeat split.
  - now apply issued_nothing.
  - now apply issued_nothing.
  - discriminate.
Qed.

(** C4.  For every path that is set, [pull] with stash true issues exactly
    ["(git stash; git pull)"] and with stash false exactly ["git pull"], as
    the only thing done between entering the [cd] scope of that path and
    leaving it, and with that path as the current directory. *)
Theorem pull_command (w : world) (dir : string) (use_sudo : bool)
  (user : pystr) :
  (exists p,
     issued (pull fails (PyStr dir) use_sudo user true) w
     = [CdEnter dir; Call p "(git stash; git pull)" dir; CdExit])
  /\
  (exists p,
     issued (pull fails (PyStr dir) use_sudo user false) w
     = [CdEnter dir; Call p "git pull" dir; CdExit]).
Proof.
  unfold pull, run_as_root, sudo, run; simpl.
  split; destruct (use_sudo && is_None user), use_sudo;
    eexists; apply issued_scoped.
Qed.

(** C5.  For every path that is set and every branch string, [checkout]
    issues exactly ["git checkout " ++ branch] inside the [cd] scope of that
    path; a call that omits branch issues ["git checkout master"]. *)
Theorem checkout_command (w : world) (dir branch : string) (use_sudo : bool)
  (user : pystr) :
  (exists p,
     issued (checkout fails (PyStr dir) (PyStr branch) use_sudo user) w
     = [CdEnter dir; Call p ("git checkout " ++ branch) dir; CdExit])
  /\
  (exists p,
     issued (checkout_omitting_branch fails (PyStr dir) use_sudo user) w
     = [CdEnter dir; Call p "git checkout master" dir; CdExit]).
Proof.
  unfold checkout_omitting_branch, checkout, run_as_root, sudo, run; simpl.
  split; destruct (use_sudo && is_None user), use_sudo;
    eexists; apply issued_scoped.
Qed.

(** C6.  [pull] and [checkout] leave the current directory as they found
    it, whether the scoped command returned or raised: the operation ends
    either normally or with the remote failure, in both cases [env.cwd] is
    back to its value before the call, and a command run next executes in
    that directory.  On a remote side where every command fails, both
    operations do raise the failure and the directory is restored all the
    same. *)
Theorem scope_restored (w : world) (dir : string) (branch : pystr)
  (use_sudo : bool) (user : pystr) (stash : bool) (next : string) :
  ( (fst (pull fails (PyStr dir) use_sudo user stash w) = Ok tt
     \/ fst (pull fails (PyStr dir) use_sudo user stash w)
        = Raise RemoteFailure)
    /\ cwd (snd (pull fails (PyStr dir) use_sudo user stash w)) = cwd w
    /\ issued (run fails next)
         (snd (pull fails (PyStr dir) use_sudo user stash w))
       = [Call Run next (cwd w)] )
  /\
  ( (fst (checkout fails (PyStr dir) branch use_sudo user w) = Ok tt
     \/ fst (checkout fails (PyStr dir) branch use_sudo user w)
        = Raise RemoteFailure)
    /\ cwd (snd (checkout fails (PyStr dir) branch use_sudo user w)) = cwd w
    /\ issued (run fails next)
         (snd (checkout fails (PyStr dir) branch use_sudo user w))
       = [Call Run next (cwd w)] )
  /\
  ( fst (pull remote_down (PyStr dir) use_sudo user stash w)
      = Raise RemoteFailure
    /\ cwd (snd (pull remote_down (PyStr dir) use_sudo user stash w)) = cwd w
    /\ fst (checkout remote_down (PyStr dir) branch use_sudo user w)
      = Raise RemoteFailure
    /\ cwd (snd (checkout remote_down (PyStr dir) branch use_sudo user w))
      = cwd w ).
Proof.
  destruct (pull_is_scoped_invoke fails dir use_sudo user stash)
    as (p & cmd & Hp).
  destruct (checkout_is_scoped_invoke fails dir branch use_sudo user)
    as (q & cmd' & Hc).
  destruct (pull_is_scoped_invoke remote_down dir use_sudo user stash)
    as (p0 & cmd0 & Hp0).
  destruct (checkout_is_scoped_invoke remote_down dir branch use_sudo user)
    as (q0 & cmd0' & Hc0).
  rewrite Hp, Hc, Hp0, Hc0. unfold run.
  rewrite !issued_invoke, !cwd_scoped, !scoped_outcome.
  repeat split; try apply invoke_outcome.
Qed.

(** C7.  With [use_sudo] false the user argument changes nothing: two
    calls of one operation that differ only in user end the same way and
    leave the same world, so the same command went to the same primitive. *)
Theorem user_ignored_without_sudo (w : world) (remote_url path branch : pystr)
  (stash : bool) (user1 user2 : pystr) :
  clone fails remote_url path false user1 w
    = clone fails remote_url path false user2 w
  /\ pull fails path false user1 stash w = pull fails path false user2 stash w
  /\ checkout fails path branch false user1 w
    = checkout fails path branch false user2 w.
Proof.
  repeat split.
Qed.

(** C8.  Every invocation of [clone], [pull] or [checkout] that does not
    raise the invalid-argument error calls exactly one primitive exactly
    once, with one command string. *)
Theorem one_command_per_invocation (i : invocation) (w : world) :
  raises_ValueError (fst (perform fails i w)) = false ->
  exists p cmd, calls (issued (perform fails i) w) = [(p, cmd)].
Proof.
  destruct i as [remote_url path use_sudo user
                | path use_sudo user stash
                | path branch use_sudo user]; simpl; intros Hok.
  - destruct (clone_is_invoke fails remote_url path use_sudo user)
      as (p & cmd & ->).
    exists p, cmd. now rewrite issued_invoke.
  - destruct path as [| dir]; [discriminate Hok |].
    destruct (pull_is_scoped_invoke fails dir use_sudo user stash)
      as (p & cmd & ->).
    exists p, cmd. now rewrite issued_scoped.
  - destruct path as [| dir]; [discriminate Hok |].
    destruct (checkout_is_scoped_invoke fails dir branch use_sudo user)
      as (p & cmd & ->).
    exists p, cmd. now rewrite issued_scoped.
Qed.

(** C9.  [clone] validates nothing: for every remote_url and every path,
    None and the empty string included, it does not raise the
    invalid-argument error; it interpolates both into the command and makes
    exactly one call of one primitive with it. *)
Theorem clone_never_rejects (w : world) (remote_url path : pystr)
  (use_sudo : bool) (user : pystr) :
  raises_ValueError (fst (clone fails remote_url path use_sudo user w))
    = false
  /\
  exists p,
    issued (clone fails remote_url path use_sudo user) w
    = [Call p
         ("git clone --quiet " ++ percent_s remote_url ++
          match path with
          | PyNone => ""
          | PyStr s => " " ++ s
          end)
         (cwd w)].
Proof.
  unfold clone, run_as_root, sudo, run.
  split.
  - destruct (use_sudo && is_None user), use_sudo; simpl;
      destruct (fails _ _ _); reflexivity.
  - destruct path as [| s]; simpl;
      destruct (use_sudo && is_None user), use_sudo;
      eexists; rewrite issued_invoke, ?append_empty_r, ?append_assoc;
      reflexivity.
Qed.

(** C10.  [clone] enters no [cd] scope: its command runs in the directory
    that was current when [clone] was called, and that directory is still
    current afterwards, for every argument combination.  [pull] and
    [checkout] on the contrary enter the scope of their path. *)
Theorem clone_outside_any_scope (w : world) (remote_url path branch : pystr)
  (dir : string) (use_sudo : bool) (user : pystr) (stash : bool) :
  scopes (issued (clone fails remote_url path use_sudo user) w) = []
  /\ (exists p cmd,
        issued (clone fails remote_url path use_sudo user) w
        = [Call p cmd (cwd w)])
  /\ cwd (snd (clone fails remote_url path use_sudo user w)) = cwd w
  /\ scopes (issued (pull fails (PyStr dir) use_sudo user stash) w) = [dir]
  /\ scopes (issued (checkout fails (PyStr dir) branch use_sudo user) w)
     = [dir].
Proof.
  destruct (clone_is_invoke fails remote_url path use_sudo user)
    as (p & cmd & ->).
  destruct (pull_is_scoped_invoke fails dir use_sudo user stash)
    as (p1 & cmd1 & ->).
  destruct (checkout_is_scoped_invoke fails dir branch use_sudo user)
    as (p2 & cmd2 & ->).
  rewrite issued_invoke, !issued_scoped, cwd_invoke.
  repeat split. now exists p, cmd.
Qed.

End Claims.

(** An instance of C8: a stashing pull as root in a fresh session, on a
    remote side that accepts every command. *)
Lemma one_command_per_invocation_witness :
  raises_ValueError
    (fst (perform remote_ok (Pull (PyStr "/srv/app") true PyNone true) fresh))
  = false
  /\
  exists p cmd,
    calls (issued
             (perform remote_ok (Pull (PyStr "/srv/app") true PyNone true))
             fresh)
    = [(p, cmd)].
Proof.
  split.
  - reflexivity.
  - apply (one_command_per_invocation remote_ok
             (Pull (PyStr "/srv/app") true PyNone true) fresh).
    reflexivity.
Defined.

(** ** Runs of single invocations and of callers *)

Section Scripts.

Variable fails : world -> primitive -> string -> bool.

(** An invocation is rejected, or is one call, or is one call in a scope;
    the primitive is privileged exactly when [use_sudo] was given, and
    [sudo] is not handed [None]. *)
Lemma perform_cases (i : invocation) :
  (exists msg, perform fails i = raise (ValueError msg))
  \/ (exists p cmd,
        perform fails i = invoke fails p cmd
        /\ privileged p = use_sudo_of i /\ p <> Sudo PyNone)
  \/ (exists dir p cmd,
        perform fails i = with_ (cd dir) (invoke fails p cmd)
        /\ privileged p = use_sudo_of i /\ p <> Sudo PyNone).
Proof.
  destruct i as [remote_url path use_sudo user
                | path use_sudo user stash
                | path branch use_sudo user]; simpl.
  - right; left. unfold clone, run_as_root, sudo, run.
    destruct use_sudo, user; simpl; do 2 eexists;
      (split; [reflexivity | split; [reflexivity | discriminate]]).
  - destruct path as [| dir]; [left; eexists; reflexivity |].
    right; right. unfold pull, run_as_root, sudo, run.
    destruct use_sudo, user; simpl; do 3 eexists;
      (split; [reflexivity | split; [reflexivity | discriminate]]).
  - destruct path as [| dir]; [left; eexists; reflexivity |].
    right; right. unfold checkout, run_as_root, sudo, run.
    destruct use_sudo, user; simpl; do 3 eexists;
      (split; [reflexivity | split; [reflexivity | discriminate]]).
Qed.

Lemma frame_issued {A} (m : M A) (w : world) (es : list event) :
  snd (m w) = {| cwd := cwd w; log := (log w ++ es)%list |} ->
  snd (m w) = {| cwd := cwd w; log := (log w ++ issued m w)%list |}.
Proof.
  intros H. rewrite (issued_grows m w es); [exact H | now rewrite H].
Qed.

Lemma snd_scoped (dir : string) (p : primitive) (cmd : string) (w : world) :
  snd (with_ (cd dir) (invoke fails p cmd) w)
  = {| cwd := cwd w;
       log := (log w ++ [CdEnter dir; Call p cmd dir; CdExit])%list |}.
Proof.
  unfold with_, cd, invoke, chdir, record; simpl.
  now rewrite <- !app_assoc.
Qed.

(** Every invocation leaves [env.cwd] alone and only adds to the log. *)
Lemma perform_frame (i : invocation) (w : world) :
  snd (perform fails i w)
  = {| cwd := cwd w;
       log := (log w ++ issued (perform fails i) w)%list |}.
Proof.
  destruct (perform_cases i)
    as [(msg & ->) | [(p & cmd & -> & _) | (dir & p & cmd & -> & _)]].
  - apply frame_issued with (es := []). simpl.
    rewrite app_nil_r. now destruct w.
  - apply frame_issued with (es := [Call p cmd (cwd w)]). reflexivity.
  - eapply frame_issued. apply snd_scoped.
Qed.

Lemma perform_all_frame (script : list invocation) (w : world) :
  snd (perform_all fails script w)
  = {| cwd := cwd w;
       log := (log w ++ issued (perform_all fails script) w)%list |}.
Proof.
  revert w. induction script as [| i rest IH]; intros w.
  - apply frame_issued with (es := []). simpl.
    rewrite app_nil_r. now destruct w.
  - pose proof (perform_frame i w) as Hi.
    remember (issued (perform fails i) w) as e1 eqn:He1. clear He1.
    destruct (perform fails i w) as [[[] | e] w1] eqn:E; simpl in Hi.
    + apply frame_issued
        with (es := (e1 ++ issued (perform_all fails rest) w1)%list).
      simpl. unfold and_then. rewrite E, IH. subst w1. simpl.
      now rewrite <- app_assoc.
    + apply frame_issued with (es := e1).
      simpl. unfold and_then. rewrite E. exact Hi.
Qed.

(** What a caller asks of the remote side: what its first invocation
    asks, then, if that one returned, what the rest asks. *)
Lemma issued_cons (i : invocation) (rest : list invocation) (w : world) :
  issued (perform_all fails (i :: rest)) w
  = (issued (perform fails i) w ++
     match fst (perform fails i w) with
     | Ok _ => issued (perform_all fails rest) (snd (perform fails i w))
     | Raise _ => []
     end)%list.
Proof.
  apply issued_grows. simpl. unfold and_then.
  pose proof (perform_frame i w) as Hi.
  remember (issued (perform fails i) w) as e1 eqn:He1. clear He1.
  destruct (perform fails i w) as [[[] | e] w1] eqn:E; simpl in *.
  - rewrite perform_all_frame. subst w1. simpl.
    now rewrite <- app_assoc.
  - subst w1. simpl. now rewrite app_nil_r.
Qed.

Lemma calls_app (es1 es2 : list event) :
  calls (es1 ++ es2) = (calls es1 ++ calls es2)%list.
Proof.
  induction es1 as [| [p cmd d | path |] es1 IH]; simpl;
    now rewrite ?IH.
Qed.

Lemma scope_depth_app (d d' : nat) (es1 es2 : list event) :
  scope_depth d es1 = Some d' ->
  scope_depth d (es1 ++ es2) = scope_depth d' es2.
Proof.
  revert d. induction es1 as [| [p cmd dir | path |] es1 IH];
    intros d H; simpl in *.
  - now inversion H.
  - now apply IH.
  - now apply IH.
  - destruct d as [| d0]; [discriminate | now apply IH].
Qed.

Lemma scoped_calls (dir : string) (p : primitive) (cmd : string)
  (w : world) :
  calls (issued (with_ (cd dir) (invoke fails p cmd)) w) = [(p, cmd)].
Proof. now rewrite issued_scoped. Qed.

Lemma perform_calls (i : invocation) (w : world) :
  (calls (issued (perform fails i) w) = []
   /\ raises_ValueError (fst (perform fails i w)) = true)
  \/ (exists p cmd,
        calls (issued (perform fails i) w) = [(p, cmd)]
        /\ privileged p = use_sudo_of i /\ p <> Sudo PyNone).
Proof.
  destruct (perform_cases i)
    as [(msg & ->) | [(p & cmd & -> & H) | (dir & p & cmd & -> & H)]].
  - left. split; [| reflexivity]. now rewrite issued_nothing.
  - right. exists p, cmd. now rewrite issued_invoke.
  - right. exists p, cmd. now rewrite scoped_calls.
Qed.

Lemma perform_issued_cwd (i : invocation) (w1 w2 : world) :
  cwd w1 = cwd w2 ->
  issued (perform fails i) w1 = issued (perform fails i) w2.
Proof.
  intros Hcwd.
  destruct (perform_cases i)
    as [(msg & ->) | [(p & cmd & -> & _) | (dir & p & cmd & -> & _)]].
  - now rewrite !issued_nothing.
  - now rewrite !issued_invoke, Hcwd.
  - now rewrite !issued_scoped.
Qed.

Lemma perform_scope_depth (i : invocation) (w : world) (d : nat) :
  scope_depth d (issued (perform fails i) w) = Some d.
Proof.
  destruct (perform_cases i)
    as [(msg & ->) | [(p & cmd & -> & _) | (dir & p & cmd & -> & _)]].
  - now rewrite issued_nothing.
  - now rewrite issued_invoke.
  - now rewrite issued_scoped.
Qed.

Lemma calls_script_Forall (P : primitive * string -> Prop)
  (script : list invocation) :
  (forall i w, In i script -> Forall P (calls (issued (perform fails i) w)))
  -> forall w, Forall P (calls (issued (perform_all fails script) w)).
Proof.
  induction script as [| i rest IH]; intros Hstep w.
  - rewrite issued_nothing by reflexivity. constructor.
  - rewrite issued_cons, calls_app. apply Forall_app. split.
    + apply Hstep. now left.
    + destruct (fst (perform fails i w)); [| constructor].
      apply IH. intros j w' Hj. apply Hstep. now right.
Qed.

End Scripts.

(** ** Further properties of the module *)

Section Further.

Variable fails : world -> primitive -> string -> bool.

(** X1.  [pull] and [checkout] raise the invalid-argument error exactly
    when path is None: no other argument, no state of the world and no
    behaviour of the remote side leads to it, and a path that is a string,
    the empty one included, is never rejected. *)
Theorem rejected_exactly_without_path (w : world) (path branch : pystr)
  (use_sudo : bool) (user : pystr) (stash : bool) :
  raises_ValueError (fst (pull fails path use_sudo user stash w))
    = is_None path
  /\ raises_ValueError (fst (checkout fails path branch use_sudo user w))
    = is_None path.
Proof.
  destruct path as [| dir]; [split; reflexivity |].
  destruct (pull_is_scoped_invoke fails dir use_sudo user stash)
    as (p & cmd & ->).
  destruct (checkout_is_scoped_invoke fails dir branch use_sudo user)
    as (q & cmd' & ->).
  rewrite !scoped_outcome. unfold invoke; simpl.
  split; destruct (fails _ _ _); reflexivity.
Qed.

(** X3.  The interpolation is ambiguous: cloning the URL [u ++ " " ++ p]
    with no path and cloning [u] into [p] are the same run, the same
    command going to the same primitive with the same outcome. *)
Theorem clone_space_ambiguity (w : world) (remote_url path : string)
  (use_sudo : bool) (user : pystr) :
  clone fails (PyStr (remote_url ++ " " ++ path)) PyNone use_sudo user w
  = clone fails (PyStr remote_url) (PyStr path) use_sudo user w.
Proof.
  unfold clone. simpl negb. cbv iota. unfold percent_s.
  now rewrite append_assoc.
Qed.

(** X4.  Invocations do not interfere: what an invocation asks of the
    remote side is the same whether or not another invocation ran just
    before it, however that one ended and whatever the remote side did
    with it. *)
Theorem invocations_do_not_interfere
  (fails_before : world -> primitive -> string -> bool)
  (a b : invocation) (w : world) :
  issued (perform fails b) (snd (perform fails_before a w))
  = issued (perform fails b) w.
Proof.
  apply perform_issued_cwd. now rewrite perform_frame.
Qed.

(** X5.  A caller making any invocations one after the other finds
    [env.cwd] as it was, whether all of them returned or one of them
    raised and cut the caller short. *)
Theorem caller_keeps_cwd (script : list invocation) (w : world) :
  cwd (snd (perform_all fails script w)) = cwd w.
Proof. now rewrite perform_all_frame. Qed.

(** X6.  In what any caller asks of the remote side the [cd] scopes are
    balanced: none is left that was not entered, and none stays open at the
    end, also when an invocation raised. *)
Theorem caller_scopes_balanced (script : list invocation) (w : world) :
  scope_depth 0 (issued (perform_all fails script) w) = Some 0.
Proof.
  generalize 0 as d. revert w.
  induction script as [| i rest IH]; intros w d.
  - now rewrite issued_nothing.
  - rewrite issued_cons.
    rewrite (scope_depth_app d d) by apply perform_scope_depth.
    destruct (fst (perform fails i w)); [apply IH | reflexivity].
Qed.

(** X7.  A caller never makes more remote calls than invocations, and one
    that runs to its end has made exactly one call per invocation. *)
Theorem caller_one_call_each (script : list invocation) (w : world) :
  length (calls (issued (perform_all fails script) w)) <= length script
  /\ (fst (perform_all fails script w) = Ok tt ->
      length (calls (issued (perform_all fails script) w)) = length script).
Proof.
  revert w. induction script as [| i rest IH]; intros w.
  - rewrite issued_nothing by reflexivity. split; auto.
  - rewrite issued_cons, calls_app, length_app.
    simpl perform_all. unfold and_then.
    pose proof (perform_calls fails i w) as Hi.
    destruct (perform fails i w) as [[[] | e] w1]; simpl fst in *;
      simpl snd in *.
    + destruct (IH w1) as [Hle Heq].
      destruct Hi as [[_ Hrej] | (p & cmd & -> & _)]; [discriminate |].
      simpl. split.
      * now apply le_n_S.
      * intros Hok. now rewrite Heq.
    + split; [| discriminate].
      destruct Hi as [[-> _] | (p & cmd & -> & _)]; simpl.
      * apply Nat.le_0_l.
      * apply le_n_S, Nat.le_0_l.
Qed.

(** X8.  Privilege follows [use_sudo] and nothing else: if every
    invocation of a caller has [use_sudo] equal to [b], then every remote
    call it makes is privileged when [b] is true and plain when [b] is
    false. *)
Theorem privilege_follows_use_sudo (b : bool) (script : list invocation)
  (w : world) :
  Forall (fun i => use_sudo_of i = b) script ->
  Forall (fun c => privileged (fst c) = b)
    (calls (issued (perform_all fails script) w)).
Proof.
  intros Hall. apply calls_script_Forall. intros i w' Hin.
  rewrite Forall_forall in Hall. specialize (Hall i Hin).
  destruct (perform_calls fails i w')
    as [[-> _] | (p & cmd & -> & Hp & _)].
  - constructor.
  - constructor; [simpl; congruence | constructor].
Qed.

(** X9.  [sudo] is never handed [None] as its user, whatever the caller
    does: with no user the module goes to [run_as_root] or to [run]. *)
Theorem sudo_always_named (script : list invocation) (w : world) :
  Forall (fun c => fst c <> Sudo PyNone)
    (calls (issued (perform_all fails script) w)).
Proof.
  apply calls_script_Forall. intros i w' _.
  destruct (perform_calls fails i w')
    as [[-> _] | (p & cmd & -> & _ & Hp)].
  - constructor.
  - constructor; [exact Hp | constructor].
Qed.

End Further.

(** X2.  The outcome of an invocation is the verdict of the remote side
    on the very call it made: an invocation that is not rejected makes one
    call, returns when the remote side accepts that primitive with that
    command and raises the remote failure when it does not; nothing is
    caught, retried or sent another way. *)
Theorem outcome_is_remote_verdict (verdict : primitive -> string -> bool)
  (i : invocation) (w : world) :
  raises_ValueError (fst (perform (fun _ => verdict) i w)) = false ->
  exists p cmd,
    calls (issued (perform (fun _ => verdict) i) w) = [(p, cmd)]
    /\ fst (perform (fun _ => verdict) i w)
       = if verdict p cmd then Raise RemoteFailure else Ok tt.
Proof.
  intros Hok.
  destruct (perform_cases (fun _ => verdict) i)
    as [(msg & H) | [(p & cmd & H & _) | (dir & p & cmd & H & _)]];
    rewrite H in *.
  - discriminate Hok.
  - exists p, cmd. now rewrite issued_invoke.
  - exists p, cmd. now rewrite scoped_calls.
Qed.

(** An instance of X2: a checkout as alice that the remote side accepts. *)
Lemma outcome_is_remote_verdict_witness :
  raises_ValueError
    (fst (perform (fun _ => fun _ _ => false)
            (Checkout (PyStr "/srv/app") (PyStr "develop") true
               (PyStr "alice")) fresh))
  = false
  /\
  exists p cmd,
    calls (issued
             (perform (fun _ => fun _ _ => false)
                (Checkout (PyStr "/srv/app") (PyStr "develop") true
                   (PyStr "alice"))) fresh)
    = [(p, cmd)]
    /\ fst (perform (fun _ => fun _ _ => false)
              (Checkout (PyStr "/srv/app") (PyStr "develop") true
                 (PyStr "alice")) fresh)
       = if false then Raise RemoteFailure else Ok tt.
Proof.
  split.
  - reflexivity.
  - apply (outcome_is_remote_verdict (fun _ _ => false)
             (Checkout (PyStr "/srv/app") (PyStr "develop") true
                (PyStr "alice")) fresh).
    reflexivity.
Defined.

(** An instance of X7: clone, checkout, then pull, all accepted. *)
Lemma caller_one_call_each_witness :
  fst (perform_all remote_ok
         [Clone (PyStr "git://h/r.git") (PyStr "/srv/app") false PyNone;
          Checkout (PyStr "/srv/app") (PyStr "develop") false PyNone;
          Pull (PyStr "/srv/app") true PyNone true] fresh)
  = Ok tt
  /\
  length (calls (issued
            (perform_all remote_ok
               [Clone (PyStr "git://h/r.git") (PyStr "/srv/app") false PyNone;
                Checkout (PyStr "/srv/app") (PyStr "develop") false PyNone;
                Pull (PyStr "/srv/app") true PyNone true]) fresh))
  = 3.
Proof.
  split.
  - reflexivity.
  - apply (caller_one_call_each remote_ok
             [Clone (PyStr "git://h/r.git") (PyStr "/srv/app") false PyNone;
              Checkout (PyStr "/srv/app") (PyStr "develop") false PyNone;
              Pull (PyStr "/srv/app") true PyNone true] fresh).
    reflexivity.
Defined.

(** An instance of X8: a caller that never asks for sudo, though it names
    a user, on a remote side that is down. *)
Lemma privilege_follows_use_sudo_witness :
  Forall (fun i => use_sudo_of i = false)
    [Clone (PyStr "git://h/r.git") PyNone false (PyStr "alice");
     Pull (PyStr "/srv/app") false (PyStr "alice") false]
  /\
  Forall (fun c => privileged (fst c) = false)
    (calls (issued
       (perform_all remote_down
          [Clone (PyStr "git://h/r.git") PyNone false (PyStr "alice");
           Pull (PyStr "/srv/app") false (PyStr "alice") false]) fresh)).
Proof.
  split.
  - repeat constructor.
  - apply (privilege_follows_use_sudo remote_down false
             [Clone (PyStr "git://h/r.git") PyNone false (PyStr "alice");
              Pull (PyStr "/srv/app") false (PyStr "alice") false] fresh).
    repeat constructor.
Defined.
